(** * A shallow embedding of [icvcs.py]

    The repository state lives on disk: the index document
    [.icvcs/repo_data.json], the journal [.icvcs/commit_history.json],
    the commit storages [.icvcs/commits/<id>] (with the reserved
    [.icvcs/commits/latest]), the version storages [.icvcs/versions/<name>],
    and the working tree the user edits.  Each command of the script is a
    function from a state to an outcome and a new state.  A crash of the
    Python process (an uncaught exception) is an outcome of its own and keeps
    every effect performed before the exception was raised. *)

From Stdlib Require Import List String Ascii Bool Arith Lia.
From Stdlib Require Import Permutation Sorted NArith.
Import ListNotations.
Open Scope string_scope.
Open Scope list_scope.

(** ** Paths

    A path string is represented by the list of its ["/"]-separated
    components, exactly as [str.split('/')] yields them: ["./a.txt"] is
    [["."; "a.txt"]] and ["d/"] is [["d"; ""]].  Paths are relative to the
    repository root, which is the process's working directory. *)
Definition path := list string.

(** The path the operating system resolves: empty and ["."] components are
    dropped and [".."] drops the previous component. *)
Definition norm (p : path) : path :=
  rev (fold_left (fun acc c =>
         if (c =? "") || (c =? ".") then acc
         else if c =? ".." then tl acc
         else c :: acc) p []).

(** [os.path.basename]: the last component, [""] for a trailing slash. *)
Definition basename (p : path) : string := last p "".

(** [os.path.join(a, b)] for a relative [b]. *)
Definition pjoin (a b : path) : path :=
  match a with
  | [] => b
  | _ => if last a "" =? "" then removelast a ++ b else a ++ b
  end.

(** The text of a path, components joined with ["/"]. *)
Fixpoint path_str (p : path) : string :=
  match p with
  | [] => ""
  | [c] => c
  | c :: q => c ++ "/" ++ path_str q
  end.

Fixpoint path_eqb (p q : path) : bool :=
  match p, q with
  | [], [] => true
  | a :: p', b :: q' => (a =? b) && path_eqb p' q'
  | _, _ => false
  end.

Definition path_mem (p : path) (l : list path) : bool :=
  existsb (path_eqb p) l.

(** [list.remove(x)]: drop the first occurrence. *)
Fixpoint remove_first (p : path) (l : list path) : list path :=
  match l with
  | [] => []
  | q :: l' => if path_eqb p q then l' else q :: remove_first p l'
  end.

(** ** Metadata documents *)

Record commit_meta := {
  commit_id : string;
  timestamp : string;
  message : string;
  author : string }.

Record version_meta := {
  version_name : string;
  created_at : string;
  v_author : string;
  description : string;
  v_files : list path }.

(** The content of a file: raw bytes, or one of the JSON metadata documents
    the script writes itself. *)
Inductive content :=
| Data (bytes : list Byte.byte)
| CommitDoc (m : commit_meta)
| VersionDoc (m : version_meta).

#[local] Set Warnings "-register-all".

(** ** The file system

    A directory is the association list of its entries, in [os.listdir]
    order. *)
Inductive node :=
| File (c : content)
| Dir (entries : list (string * node)).

Definition entries := list (string * node).

Fixpoint entry (n : string) (es : entries) : option node :=
  match es with
  | [] => None
  | (m, x) :: es' => if n =? m then Some x else entry n es'
  end.

Definition has_entry (n : string) (es : entries) : bool :=
  match entry n es with Some _ => true | None => false end.

(** Entry of a normalized path below a directory. *)
Fixpoint lookup (es : entries) (p : path) : option node :=
  match p with
  | [] => Some (Dir es)
  | c :: q =>
      match entry c es, q with
      | Some x, [] => Some x
      | Some (Dir es'), _ :: _ => lookup es' q
      | _, _ => None
      end
  end.

(** [shutil.rmtree] of an entry. *)
Fixpoint drop_entry (n : string) (es : entries) : entries :=
  match es with
  | [] => []
  | (m, x) :: es' => if n =? m then es' else (m, x) :: drop_entry n es'
  end.

(** Writing the entry [n] (a new file, or overwriting a file): an existing
    entry keeps its place in the listing. *)
Fixpoint put_entry (n : string) (x : node) (es : entries) : entries :=
  match es with
  | [] => [(n, x)]
  | (m, y) :: es' => if n =? m then (n, x) :: es' else (m, y) :: put_entry n x es'
  end.

(** ** Repository state *)

(** [repo_data.json].  [directories] is the JSON object from a directory
    path to its capture list, in insertion order. *)
Record repo_data := {
  repo_name : string;
  files : list path;
  directories : list (path * list path);
  versions : list string }.

(** [icvcs_config.json] (or the defaults of [load_config]). *)
Record config := {
  default_author : string;
  default_version_description : string;
  default_commit_message : string }.

(** The documents the script rewrites, in the order it rewrites them. *)
Inductive doc_write :=
| WriteRepoData (r : repo_data)
| WriteHistory (h : list commit_meta).

(** [work] is the working tree outside [.icvcs]; [commits] and [vstore] are
    the listings of [.icvcs/commits] and [.icvcs/versions]; [history] is
    [commit_history.json]; [written] records every document write. *)
Record state := {
  repo : repo_data;
  cfg : config;
  work : entries;
  commits : entries;
  vstore : entries;
  history : list commit_meta;
  written : list doc_write }.

(** ** The command monad: state, printed lines, uncaught exceptions *)

Inductive res (A : Type) :=
| Ok (a : A)
| Raise (e : string).
Arguments Ok {A} a.
Arguments Raise {A} e.

Definition M (A : Type) := state -> state * list string * res A.

Definition ret {A} (a : A) : M A := fun s => (s, [], Ok a).

Definition bind {A B} (m : M A) (k : A -> M B) : M B :=
  fun s =>
    match m s with
    | (s1, o1, Ok a) => let '(s2, o2, r) := k a s1 in (s2, o1 ++ o2, r)
    | (s1, o1, Raise e) => (s1, o1, Raise e)
    end.

Notation "x <- m ;; k" := (bind m (fun x => k))
  (at level 61, m at next level, right associativity).
Notation "m ;;; k" := (bind m (fun _ => k))
  (at level 61, right associativity).

Definition get : M state := fun s => (s, [], Ok s).
Definition modify (f : state -> state) : M unit := fun s => (f s, [], Ok tt).
Definition print (l : string) : M unit := fun s => (s, [l], Ok tt).
Definition throw {A} (e : string) : M A := fun s => (s, [], Raise e).

Definition set_repo (r : repo_data) (s : state) : state :=
  {| repo := r; cfg := cfg s; work := work s; commits := commits s;
     vstore := vstore s; history := history s; written := written s |}.
Definition set_commits (c : entries) (s : state) : state :=
  {| repo := repo s; cfg := cfg s; work := work s; commits := c;
     vstore := vstore s; history := history s; written := written s |}.
Definition set_vstore (v : entries) (s : state) : state :=
  {| repo := repo s; cfg := cfg s; work := work s; commits := commits s;
     vstore := v; history := history s; written := written s |}.
Definition set_history (h : list commit_meta) (s : state) : state :=
  {| repo := repo s; cfg := cfg s; work := work s; commits := commits s;
     vstore := vstore s; history := h; written := written s |}.
Definition set_work (w : entries) (s : state) : state :=
  {| repo := repo s; cfg := cfg s; work := w; commits := commits s;
     vstore := vstore s; history := history s; written := written s |}.
Definition log_write (d : doc_write) (s : state) : state :=
  {| repo := repo s; cfg := cfg s; work := work s; commits := commits s;
     vstore := vstore s; history := history s; written := written s ++ [d] |}.

(** [load_repo_data] (a repository is assumed to be initialised). *)
Definition load_repo_data : M repo_data := s <- get ;; ret (repo s).

(** [save_repo_data]. *)
Definition save_repo_data (r : repo_data) : M unit :=
  modify (fun s => log_write (WriteRepoData r) (set_repo r s)) ;;;
  print "Repository data updated successfully.".

(** ** [os.path] on the working tree *)

(** What [os.stat] finds at a path; the empty string names nothing. *)
Definition resolve (w : entries) (p : path) : option node :=
  if path_eqb p [""] then None else lookup w (norm p).

Definition os_exists (w : entries) (p : path) : bool :=
  match resolve w p with Some _ => true | None => false end.

(** [os.walk] from [root] over the directory [n]: the pairs [(root, file)]
    in the order it yields them, the files of a directory before the
    subdirectories, which are walked in listing order. *)
Fixpoint walk (root : path) (n : node) : list (path * string) :=
  match n with
  | File _ => []
  | Dir es =>
      (fix here (l : entries) : list (path * string) :=
         match l with
         | [] => []
         | (m, File _) :: l' => (root, m) :: here l'
         | (_, Dir _) :: l' => here l'
         end) es ++
      (fix below (l : entries) : list (path * string) :=
         match l with
         | [] => []
         | (m, (Dir _) as d) :: l' => walk (pjoin root [m]) d ++ below l'
         | (_, File _) :: l' => below l'
         end) es
  end.

(** ** [add] and [remove] *)

Fixpoint dir_get (p : path) (ds : list (path * list path)) : option (list path) :=
  match ds with
  | [] => None
  | (q, l) :: ds' => if path_eqb p q then Some l else dir_get p ds'
  end.

(** [directories[p] = l]: in place for an existing key, appended otherwise. *)
Fixpoint dir_set (p : path) (l : list path) (ds : list (path * list path))
  : list (path * list path) :=
  match ds with
  | [] => [(p, l)]
  | (q, l') :: ds' => if path_eqb p q then (q, l) :: ds' else (q, l') :: dir_set p l ds'
  end.

(** [del directories[p]]. *)
Fixpoint dir_del (p : path) (ds : list (path * list path)) : list (path * list path) :=
  match ds with
  | [] => []
  | (q, l) :: ds' => if path_eqb p q then ds' else (q, l) :: dir_del p ds'
  end.

Definition with_files_of (r : repo_data) (fs : list path) : repo_data :=
  {| repo_name := repo_name r; files := fs; directories := directories r;
     versions := versions r |}.
Definition with_dirs_of (r : repo_data) (ds : list (path * list path)) : repo_data :=
  {| repo_name := repo_name r; files := files r; directories := ds;
     versions := versions r |}.
Definition with_versions_of (r : repo_data) (vs : list string) : repo_data :=
  {| repo_name := repo_name r; files := files r; directories := directories r;
     versions := vs |}.

(** The capture-list loop of [add(path, with_files=True)]. *)
Definition capture (l : list path) (found : list path) : list path :=
  fold_left (fun acc fp => if path_mem fp acc then acc else acc ++ [fp]) found l.

Definition quoted (kind : string) (p : path) (rest : string) : string :=
  kind ++ " '" ++ path_str p ++ "' " ++ rest.

Definition add (p : path) (with_files : bool) : M unit :=
  s <- get ;;
  let r := repo s in
  match resolve (work s) p with
  | Some (File _) =>
      if path_mem p (files r) then
        print (quoted "File" p "is already tracked.") ;;; save_repo_data r
      else
        print (quoted "File" p "added to the repository.") ;;;
        save_repo_data (with_files_of r (files r ++ [p]))
  | Some (Dir es) =>
      let fresh := match dir_get p (directories r) with None => true | Some _ => false end in
      let ds1 := if fresh then dir_set p [] (directories r) else directories r in
      (if fresh then print (quoted "Directory" p "added to the repository.") else ret tt) ;;;
      if with_files then
        let found := map (fun '(root, f) => pjoin root [f]) (walk p (Dir es)) in
        let l := match dir_get p ds1 with Some l => l | None => [] end in
        print (quoted "Directory" p "and its contents added to the repository.") ;;;
        save_repo_data (with_dirs_of r (dir_set p (capture l found) ds1))
      else save_repo_data (with_dirs_of r ds1)
  | None =>
      print (quoted "Path" p "does not exist.") ;;; save_repo_data r
  end.

Definition remove (p : path) : M unit :=
  s <- get ;;
  let r := repo s in
  match resolve (work s) p with
  | Some (File _) =>
      if path_mem p (files r) then
        print (quoted "File" p "removed from the repository.") ;;;
        save_repo_data (with_files_of r (remove_first p (files r)))
      else print (quoted "File" p "is not tracked.") ;;; save_repo_data r
  | Some (Dir _) =>
      match dir_get p (directories r) with
      | Some _ =>
          print (quoted "Directory" p "removed from the repository.") ;;;
          save_repo_data (with_dirs_of r (dir_del p (directories r)))
      | None => print (quoted "Directory" p "is not tracked.") ;;; save_repo_data r
      end
  | None =>
      print (quoted "Path" p "does not exist in the repository.") ;;; save_repo_data r
  end.

(** ** Materialization: the copy loops of [version] and [commit]

    The loops fill the fresh snapshot directory, whose listing is the
    accumulator.  They return the listing reached, the warnings printed and
    the exception that stopped them, if any.  [version] prints no warning
    ([warn = false]); [commit] does ([warn = true]). *)

Definition copy_result := (entries * list string * option string)%type.

(** [for file in repo_data["files"]: ... shutil.copy(file, dst)]. *)
Fixpoint copy_files (warn : bool) (w : entries) (fs : list path) (acc : entries)
  : copy_result :=
  match fs with
  | [] => (acc, [], None)
  | f :: fs' =>
      match resolve w f with
      | Some (File c) => copy_files warn w fs' (put_entry (basename f) (File c) acc)
      | Some (Dir _) => (acc, [], Some "IsADirectoryError")
      | None =>
          let '(a, o, e) := copy_files warn w fs' acc in
          (a, (if warn then [quoted "Warning: Tracked file" f "does not exist."] else []) ++ o, e)
      end
  end.

(** [for directory, _ in repo_data["directories"].items(): ...
    shutil.copytree(directory, os.path.join(dst, os.path.basename(directory)))].
    Only the keys are read.  [copytree] refuses an existing destination,
    and a basename [""], ["."] or [".."] names the destination directory
    itself or its parent. *)
Fixpoint copy_dirs (warn : bool) (w : entries) (ds : list (path * list path))
  (acc : entries) : copy_result :=
  match ds with
  | [] => (acc, [], None)
  | (d, _) :: ds' =>
      match resolve w d with
      | Some (Dir es) =>
          let b := basename d in
          if (b =? "") || (b =? ".") || (b =? "..") || has_entry b acc
          then (acc, [], Some "FileExistsError")
          else copy_dirs warn w ds' (put_entry b (Dir es) acc)
      | Some (File _) => (acc, [], Some "NotADirectoryError")
      | None =>
          let '(a, o, e) := copy_dirs warn w ds' acc in
          (a, (if warn then [quoted "Warning: Tracked directory" d "does not exist."] else []) ++ o, e)
      end
  end.

Definition materialize (warn : bool) (w : entries) (r : repo_data) : copy_result :=
  match copy_files warn w (files r) [] with
  | (a, o, None) => let '(a', o', e) := copy_dirs warn w (directories r) a in (a', o ++ o', e)
  | stopped => stopped
  end.

(** [input(prompt) or default]. *)
Definition or_default (typed default : string) : string :=
  if typed =? "" then default else typed.

Fixpoint remove_name (n : string) (l : list string) : option (list string) :=
  match l with
  | [] => None
  | m :: l' => if n =? m then Some l'
               else match remove_name n l' with Some l'' => Some (m :: l'') | None => None end
  end.

Definition prints (ls : list string) : M unit := fun s => (s, ls, Ok tt).

(** ** [version]

    A version name is one path component.  [now] is [datetime.now()];
    [author_in] and [desc_in] are what the user types at the prompts. *)
Definition version_create (name : string) (force : bool)
  (now author_in desc_in : string) : M unit :=
  s <- get ;;
  let r := repo s in
  if name =? "" then print "Version name is required for 'create'." else
  if has_entry name (vstore s) && negb force then
    print ("Version '" ++ name ++ "' already exists.")
  else
    r1 <- (if has_entry name (vstore s) then
       print ("Version '" ++ name ++ "' exists but will be overwritten due to --force.") ;;;
       modify (fun s => set_vstore (drop_entry name (vstore s)) s) ;;;
       match remove_name name (versions r) with
       | Some vs => ret (with_versions_of r vs)
       | None => throw "ValueError"
       end
     else ret r) ;;
    modify (fun s => set_vstore (put_entry name (Dir []) (vstore s)) s) ;;;
    let '(snap, warns, stop) := materialize false (work s) r1 in
    prints warns ;;;
    modify (fun s => set_vstore (put_entry name (Dir snap) (vstore s)) s) ;;;
    match stop with
    | Some e => throw e
    | None =>
        let m := {| version_name := name; created_at := now;
                    v_author := or_default author_in (default_author (cfg s));
                    description := or_default desc_in (default_version_description (cfg s));
                    v_files := files r1 |} in
        modify (fun s => set_vstore (put_entry name
                   (Dir (put_entry "metadata.json" (File (VersionDoc m)) snap)) (vstore s)) s) ;;;
        save_repo_data (with_versions_of r1 (versions r1 ++ [name])) ;;;
        print ("Version '" ++ name ++ "' created successfully.")
    end.

Definition version_delete (name : string) : M unit :=
  s <- get ;;
  let r := repo s in
  if name =? "" then print "Version name is required for 'delete'." else
  if has_entry name (vstore s) then
    modify (fun s => set_vstore (drop_entry name (vstore s)) s) ;;;
    match remove_name name (versions r) with
    | Some vs =>
        save_repo_data (with_versions_of r vs) ;;;
        print ("Version '" ++ name ++ "' deleted successfully.")
    | None => throw "ValueError"
    end
  else print ("Version '" ++ name ++ "' does not exist.").

(** ** [commit]

    [now_id] is [datetime.now().strftime('%Y%m%d%H%M%S')], [now] the
    [isoformat()] timestamp; [msg_in] and [author_in] are the answers to the
    prompts.  [os.makedirs(commit_dir)] raises [FileExistsError] when the
    directory is already there. *)
Definition commit (now_id now msg_in author_in : string) : M unit :=
  s <- get ;;
  let r := repo s in
  if has_entry now_id (commits s) then throw "FileExistsError" else
  modify (fun s => set_commits (put_entry now_id (Dir []) (commits s)) s) ;;;
  let '(snap, warns, stop) := materialize true (work s) r in
  prints warns ;;;
  modify (fun s => set_commits (put_entry now_id (Dir snap) (commits s)) s) ;;;
  match stop with
  | Some e => throw e
  | None =>
      let m := {| commit_id := now_id; timestamp := now;
                  message := or_default msg_in (default_commit_message (cfg s));
                  author := or_default author_in (default_author (cfg s)) |} in
      modify (fun s => set_commits (put_entry now_id
                 (Dir (put_entry "metadata.json" (File (CommitDoc m)) snap)) (commits s)) s) ;;;
      s1 <- get ;;
      let h := history s1 ++ [m] in
      modify (fun s => log_write (WriteHistory h) (set_history h s)) ;;;
      print ("Commit '" ++ now_id ++ "' created successfully.")
  end.

(** [remove_commit]: a commit identifier is one path component. *)
Definition remove_commit (cid : string) : M unit :=
  s <- get ;;
  if has_entry cid (commits s) then
    modify (fun s => set_commits (drop_entry cid (commits s)) s) ;;;
    print ("Commit '" ++ cid ++ "' removed successfully.")
  else print ("Commit '" ++ cid ++ "' does not exist.").

(** ** [push] *)

Fixpoint insert_sorted (x : string) (l : list string) : list string :=
  match l with
  | [] => [x]
  | y :: l' => match String.compare x y with
               | Gt => y :: insert_sorted x l'
               | _ => x :: l
               end
  end.

(** [sorted] on strings (code-point order). *)
Definition sort_strings (l : list string) : list string :=
  fold_right insert_sorted [] l.

(** The loop of [push] over [os.listdir(commit_dir)], filling the fresh
    [latest] listing [acc]: [copytree] for a directory (it refuses an
    existing destination), [shutil.copy] for a file. *)
Fixpoint copy_items (items : entries) (acc : entries) : entries * option string :=
  match items with
  | [] => (acc, None)
  | (item, Dir es) :: items' =>
      if has_entry item acc then (acc, Some "FileExistsError")
      else copy_items items' (put_entry item (Dir es) acc)
  | (item, File c) :: items' => copy_items items' (put_entry item (File c) acc)
  end.

(** The part of [push] after the commit has been chosen. *)
Definition push_to_latest (cid : string) : M unit :=
  modify (fun s => set_commits (if has_entry "latest" (commits s)
                                then drop_entry "latest" (commits s) else commits s) s) ;;;
  modify (fun s => set_commits (put_entry "latest" (Dir []) (commits s)) s) ;;;
  s <- get ;;
  match entry cid (commits s) with
  | Some (Dir items) =>
      let '(l, stop) := copy_items items [] in
      modify (fun s => set_commits (put_entry "latest" (Dir l) (commits s)) s) ;;;
      match stop with
      | Some e => throw e
      | None => print ("Commit '" ++ cid ++ "' pushed to 'latest'.")
      end
  | _ => throw "NotADirectoryError"
  end.

(** The commit [push()] picks: the greatest name of the sorted listing once
    ["latest"] is removed from it. *)
Definition newest_commit (names : list string) : option string :=
  let l := sort_strings names in
  let l' := match remove_name "latest" l with Some l' => l' | None => l end in
  match l' with [] => None | _ => Some (last l' "") end.

(** [push(commit_id)]; [None] and [Some ""] are both falsy. *)
Definition push (oid : option string) : M unit :=
  s <- get ;;
  match commits s with
  | [] => print "No commits to push."
  | _ =>
      let given := match oid with
                   | Some cid => if cid =? "" then None else Some cid
                   | None => None
                   end in
      match given with
      | Some cid =>
          if has_entry cid (commits s) then push_to_latest cid
          else print ("Commit '" ++ cid ++ "' does not exist.")
      | None =>
          match newest_commit (map fst (commits s)) with
          | Some cid => push_to_latest cid
          | None => print "No commits to push."
          end
      end
  end.

(** [clear_commits]: every entry but ["latest"] is removed. *)
Definition clear_commits : M unit :=
  modify (fun s => set_commits (filter (fun e => fst e =? "latest") (commits s)) s) ;;;
  print "All commits cleared except the 'latest' commit.".

(** ** Reading files back *)

Definition commit_meta_eq_dec (a b : commit_meta) : {a = b} + {a <> b}.
Proof. decide equality; apply string_dec. Defined.

Definition path_eq_dec : forall (p q : path), {p = q} + {p <> q} :=
  list_eq_dec string_dec.

Definition version_meta_eq_dec (a b : version_meta) : {a = b} + {a <> b}.
Proof. decide equality; try apply string_dec; apply (list_eq_dec path_eq_dec). Defined.

Definition bytes_eqb (a b : list Byte.byte) : bool :=
  if list_eq_dec Byte.byte_eq_dec a b then true else false.





Section Reading.

(** The bytes [json.dump] writes for the metadata documents. *)
Variable dump_commit_meta : commit_meta -> list Byte.byte.
Variable dump_version_meta : version_meta -> list Byte.byte.
(** The lines [show_diff] prints ([difflib.unified_diff]). *)
Variable unified_diff : list Byte.byte -> list Byte.byte -> list string.

Definition bytes_of (c : content) : list Byte.byte :=
  match c with
  | Data b => b
  | CommitDoc m => dump_commit_meta m
  | VersionDoc m => dump_version_meta m
  end.

(** *** [status] *)

Record report := {
  untracked : list path;
  modified : list path;
  deleted : list path;
  staged : list path }.

Fixpoint dedup (l : list path) : list path :=
  match l with
  | [] => []
  | p :: l' => p :: filter (fun q => negb (path_eqb p q)) (dedup l')
  end.

Fixpoint contains (pat s : string) : bool :=
  match s with
  | EmptyString => String.prefix pat s
  | String _ s' => String.prefix pat s || contains pat s'
  end.

(** [working_directory_files]: [os.walk('.')], skipping every root whose
    text contains [".icvcs"], each file as its [os.path.relpath]. *)
Definition working_files (w : entries) : list path :=
  map (fun '(root, f) => norm (pjoin root [f]))
      (filter (fun '(root, _) => negb (contains ".icvcs" (path_str root)))
              (walk ["."] (Dir w))).

(** [os.path.join(latest_commit_path, file)] as the operating system finds
    it: below [.icvcs/commits/latest], if that directory exists. *)
Definition in_latest (c : entries) (f : path) : option node :=
  match entry "latest" c with
  | Some (Dir les) => lookup les (norm f)
  | _ => None
  end.

(** The loop over [tracked_files]: the files found modified and deleted,
    in loop order, or the exception [open] raises on a directory. *)
Fixpoint classify (w c : entries) (tracked : list path)
  : res (list path * list path) :=
  match tracked with
  | [] => Ok ([], [])
  | f :: t =>
      match classify w c t with
      | Raise e => Raise e
      | Ok (md, dl) =>
          match resolve w f with
          | None => Ok (md, f :: dl)
          | Some cur =>
              match in_latest c f with
              | None => Ok (f :: md, dl)
              | Some old =>
                  match cur, old with
                  | File a, File b =>
                      if bytes_eqb (bytes_of a) (bytes_of b) then Ok (md, dl)
                      else Ok (f :: md, dl)
                  | _, _ => Raise "IsADirectoryError"
                  end
              end
          end
      end
  end.

(** [status()] without its printing: the four sets it prints. *)
Definition status : M report :=
  s <- get ;;
  let tracked := dedup (files (repo s)) in
  let wdf := working_files (work s) in
  let untr := filter (fun p => negb (path_mem p tracked)
                              && negb (String.prefix ".icvcs" (path_str p))) wdf in
  match classify (work s) (commits s) tracked with
  | Raise e => throw e
  | Ok (md, dl) =>
      ret {| untracked := untr; modified := md; deleted := dl;
             staged := filter (fun p => path_mem p wdf && negb (path_mem p md)
                                        && negb (path_mem p dl)) tracked |}
  end.

(** *** [compare_versions] *)









End Reading.

(** ** Commands and runs *)

(** The commands that change the repository, and [Edit], the user changing
    the working tree (files modified, created or deleted). *)
Inductive op :=
| Add (p : path) (with_files : bool)
| Remove (p : path)
| VersionCreate (name : string) (force : bool) (now author_in desc_in : string)
| VersionDelete (name : string)
| Commit (now_id now msg_in author_in : string)
| RemoveCommit (cid : string)
| Push (oid : option string)
| ClearCommits
| Edit (w : entries).

Definition exec (o : op) : M unit :=
  match o with
  | Add p wf => add p wf
  | Remove p => remove p
  | VersionCreate n f now a d => version_create n f now a d
  | VersionDelete n => version_delete n
  | Commit i now m a => commit i now m a
  | RemoveCommit i => remove_commit i
  | Push oid => push oid
  | ClearCommits => clear_commits
  | Edit w => modify (set_work w)
  end.

(** The state after a command, whether it returned or crashed. *)
Definition step (s : state) (o : op) : state := fst (fst (exec o s)).

Definition run (s : state) (os : list op) : state := fold_left step os s.

(** ** Notions the properties are stated with *)

(** A stored snapshot: a commit storage (other than the reserved
    ["latest"]) or a version storage. *)
Inductive snap :=
| CommitSnap (cid : string)
| VersionSnap (name : string).





(** Two states that differ at most in the capture lists recorded for the
    tracked directories (same keys, in the same order). *)
Definition same_but_captures (s1 s2 : state) : Prop :=
  work s1 = work s2 /\ commits s1 = commits s2 /\ vstore s1 = vstore s2 /\
  history s1 = history s2 /\ written s1 = written s2 /\ cfg s1 = cfg s2 /\
  repo_name (repo s1) = repo_name (repo s2) /\ files (repo s1) = files (repo s2) /\
  versions (repo s1) = versions (repo s2) /\
  map fst (directories (repo s1)) = map fst (directories (repo s2)).

(** ** Example repositories *)

Definition cfg0 : config :=
  {| default_author := "Unknown"; default_version_description := "No description";
     default_commit_message := "No message" |}.

(** A freshly initialised repository over the given working tree. *)
Definition fresh (w : entries) : state :=
  {| repo := {| repo_name := "demo"; files := []; directories := []; versions := [] |};
     cfg := cfg0; work := w; commits := []; vstore := []; history := []; written := [] |}.

Definition text_a : list Byte.byte := [Byte.x61; Byte.x0a].
Definition text_b : list Byte.byte := [Byte.x62; Byte.x0a].

(** [a.txt] at the root and [sub/b.txt] below it. *)
Definition tree0 : entries :=
  [("a.txt", File (Data text_a)); ("sub", Dir [("b.txt", File (Data text_b))])].

(** [add ./a.txt], a commit, [push]. *)
Definition dot_demo : state :=
  run (fresh tree0) [Add ["."; "a.txt"] false; Commit "20240101000000" "t1" "" ""; Push None].





(** The same repository as [nested_demo] before its commit, once with an
    empty capture list for [sub] and once with the one [add sub -wf]
    records. *)
Definition capture_demo (l : list path) : state :=
  let s := run (fresh tree0) [Add ["sub"] false; Add ["a.txt"] false] in
  set_repo (with_dirs_of (repo s) [(["sub"], l)]) s.



(** The identifier [commit()] derives from a clock reading. *)
Definition cid0 : string := "20240101000000".



(** Two commits of different trees. *)
Definition two_commits : state :=
  run (fresh tree0) [Add ["a.txt"] false; Commit "1" "t1" "" "";
                     Remove ["a.txt"]; Add ["sub"; "b.txt"] false; Commit "2" "t2" "" ""].

Definition commit_items (s : state) (cid : string) : entries :=
  match entry cid (commits s) with Some (Dir items) => items | _ => [] end.



Definition tracked_a : state := step (fresh tree0) (Add ["a.txt"] false).

(** ** [init] *)

(** The configuration [init] writes from the answers to its three prompts.
    The third default sits inside the argument of [input], so an empty
    answer is kept as the empty string. *)
Definition init_config (author_in desc_in msg_in : string) : config :=
  {| default_author := or_default author_in "Unknown";
     default_version_description := or_default desc_in "No description provided";
     default_commit_message := msg_in |}.

(** [init(repo_name)] where [.icvcs] does not exist yet, over the working
    tree [w]: it creates the versions and commits directories and the empty
    [commits/latest], saves the index, writes the configuration and an empty
    journal. *)
Definition init (repo_name : string) (w : entries) (author_in desc_in msg_in : string)
  : state * list string :=
  let r := {| repo_name := repo_name; files := []; directories := []; versions := [] |} in
  ({| repo := r; cfg := init_config author_in desc_in msg_in; work := w;
      commits := [("latest", Dir [])]; vstore := []; history := [];
      written := [WriteRepoData r; WriteHistory []] |},
   ["Repository data updated successfully.";
    ("Repository '" ++ repo_name ++ "' initialized successfully.")%string]).

(** ** Listing commands *)

(** The lines of [list_commits] after ["Commits:"]: [metadata.get] falls
    back to its default for a key the document lacks, and prints [None] for
    a missing [commit_id]. *)
Fixpoint list_commit_lines (ids : list string) : M unit :=
  match ids with
  | [] => ret tt
  | cid :: ids' =>
      s <- get ;;
      (match lookup (commits s) [cid; "metadata.json"] with
       | Some (File (CommitDoc m)) =>
           print ("- " ++ cid ++ ": " ++ message m ++ " (Author: " ++ author m ++
                  ") id: " ++ commit_id m)
       | Some (File (VersionDoc m)) =>
           print ("- " ++ cid ++ ": No message (Author: " ++ v_author m ++ ") id: None")
       | Some (File (Data _)) => throw "JSONDecodeError"
       | Some (Dir _) => throw "IsADirectoryError"
       | None => print ("- " ++ cid ++ ": No metadata available.")
       end) ;;;
      list_commit_lines ids'
  end.

(** [list_commits()]: every entry of [.icvcs/commits], ["latest"]
    included, in sorted order. *)
Definition list_commits : M unit :=
  s <- get ;;
  match sort_strings (map fst (commits s)) with
  | [] => print "No commits found."
  | ids => print "Commits:" ;;; list_commit_lines ids
  end.

Fixpoint list_version_lines (vs : list string) : M unit :=
  match vs with
  | [] => ret tt
  | v :: vs' =>
      s <- get ;;
      (match lookup (vstore s) [v; "metadata.json"] with
       | Some (File (VersionDoc m)) =>
           print ("- " ++ v ++ ": " ++ description m ++ " (Created on: " ++ created_at m ++
                  " by " ++ v_author m ++ ")")
       | Some (File (CommitDoc m)) =>
           print ("- " ++ v ++ ": No description (Created on: Unknown by " ++ author m ++ ")")
       | Some (File (Data _)) => throw "JSONDecodeError"
       | Some (Dir _) => throw "IsADirectoryError"
       | None => print ("- " ++ v ++ ": No metadata available.")
       end) ;;;
      list_version_lines vs'
  end.

(** [list_versions()]: the names of the index, in its order. *)
Definition list_versions : M unit :=
  s <- get ;;
  match versions (repo s) with
  | [] => print "No versions found."
  | vs => print "Versions:" ;;; list_version_lines vs
  end.

Fixpoint history_lines (h : list commit_meta) : list string :=
  match h with
  | [] => []
  | e :: h' =>
      ("- Commit ID: " ++ commit_id e)%string :: ("  Author: " ++ author e)%string ::
      ("  Timestamp: " ++ timestamp e)%string :: ("  Message: " ++ message e)%string :: "" ::
      history_lines h'
  end.

(** [list_commit_history()]. *)
Definition list_commit_history : M unit :=
  s <- get ;;
  match history s with
  | [] => print "No commits found in the history."
  | h => print "Commit History:" ;;; prints (history_lines h)
  end.

(** [get_last_commit_info()]. *)
Definition get_last_commit_info : M string :=
  s <- get ;;
  match rev (history s) with
  | [] => ret "No commits yet."
  | m :: _ =>
      ret ("ID: " ++ commit_id m ++ ", Author: " ++ author m ++ ", Message: " ++
           message m ++ ", Timestamp: " ++ timestamp m)%string
  end.

(** ** Configuration commands *)

(** [update_icvcs_config(config_key, new_value)]: it reads and writes
    [icvcs_config.json] in the current directory, that is in the working
    tree.  [set_key] is [json.load], the item assignment and [json.dump]
    on the bytes of that file: the new bytes, or the exception raised. *)
Definition update_icvcs_config (dcm : commit_meta -> list Byte.byte)
  (dvm : version_meta -> list Byte.byte)
  (set_key : list Byte.byte -> string -> string -> res (list Byte.byte))
  (config_key new_value : string) : M unit :=
  s <- get ;;
  match resolve (work s) ["icvcs_config.json"] with
  | None => print "Config file does not exist."
  | Some (Dir _) => throw "IsADirectoryError"
  | Some (File c) =>
      match set_key (bytes_of dcm dvm c) config_key new_value with
      | Raise e => throw e
      | Ok b =>
          modify (fun s => set_work (put_entry "icvcs_config.json" (File (Data b)) (work s)) s) ;;;
          print (config_key ++ " updated successfully.")
      end
  end.

(** [change_author], [change_commit_message], [change_version_description]
    with the answer typed at their prompt. *)
Definition change_author dcm dvm set_key (typed : string) : M unit :=
  update_icvcs_config dcm dvm set_key "author" typed.
Definition change_commit_message dcm dvm set_key (typed : string) : M unit :=
  update_icvcs_config dcm dvm set_key "commit_message" typed.
Definition change_version_description dcm dvm set_key (typed : string) : M unit :=
  update_icvcs_config dcm dvm set_key "version_description" typed.

(** ** [main]: the function [sys.argv] selects *)

(** The call [main] makes, with its arguments as the strings of
    [sys.argv]; [Usage] is a message [main] prints itself and [IndexError]
    an index of [sys.argv] out of range. *)
Inductive call :=
| CInit (repo_name : string)
| CAdd (path : string) (with_files : bool)
| CRemove (path : string)
| CListVersions
| CVersion (command version_name : string) (force : bool)
| CRemoveCommit (commit_id : string)
| CClearCommits
| CListCommits
| CCommitHistory
| CCommit
| CPush (commit_id : option string)
| CHelp
| CStatus
| CChangeAuthor
| CChangeVersionDescription
| CChangeCommitMessage
| CConfigShow
| CInvalidSetting
| CCompare (version1 version2 : string)
| CUnknown (command : string)
| Usage (line : string)
| IndexError.

Definition argv_flag (flag : string) (argv : list string) : bool :=
  existsb (String.eqb flag) argv.

Definition main (argv : list string) : call :=
  let n := List.length argv in
  let arg i := nth i argv "" in
  if Nat.ltb n 2 then Usage "Invalid command. Run 'icvcs help' to see available commands." else
  let command := arg 1 in
  if command =? "init" then
    if Nat.ltb n 3 then Usage "Repository name is required." else CInit (arg 2)
  else if command =? "add" then
    if Nat.ltb n 3 then Usage "Path to add is required." else CAdd (arg 2) (argv_flag "-wf" argv)
  else if command =? "remove" then
    if Nat.ltb n 3 then Usage "Path to remove is required." else CRemove (arg 2)
  else if command =? "version" then
    if Nat.ltb n 3 then IndexError
    else if arg 2 =? "list" then CListVersions
    else if Nat.ltb n 4 then
      Usage "Version command ('create' or 'delete') and version name are required."
    else CVersion (arg 2) (arg 3) (argv_flag "--force" argv)
  else if command =? "commit" then
    if Nat.ltb 2 n then
      if arg 2 =? "remove" then
        if Nat.ltb n 4 then Usage "Commit ID is required for 'remove'." else CRemoveCommit (arg 3)
      else if arg 2 =? "clear" then CClearCommits
      else if arg 2 =? "list" then CListCommits
      else if arg 2 =? "history" then CCommitHistory
      else CCommit
    else CCommit
  else if command =? "push" then
    if Nat.ltb n 3 then CPush None else CPush (Some (arg 2))
  else if command =? "help" then CHelp
  else if command =? "status" then CStatus
  else if command =? "config" then
    if Nat.ltb n 3 then
      Usage "Provide a setting to change (author, version_description, commit_message) or 'show' to show the current config"
    else if arg 2 =? "author" then CChangeAuthor
    else if arg 2 =? "version_description" then CChangeVersionDescription
    else if arg 2 =? "commit_message" then CChangeCommitMessage
    else if arg 2 =? "show" then CConfigShow
    else CInvalidSetting
  else if command =? "compare" then
    if Nat.ltb n 4 then IndexError else CCompare (arg 2) (arg 3)
  else CUnknown command.





(** A version directory [v1] the index does not list. *)
Definition unlisted_demo : state := set_vstore [("v1", Dir [])] tracked_a.


(** Dump functions and a diff that print nothing. *)
Definition no_dump_c (_ : commit_meta) : list Byte.byte := [].
Definition no_dump_v (_ : version_meta) : list Byte.byte := [].


(** A [json] update that stores the value as the whole file. *)
Definition set_whole (_ : list Byte.byte) (_ v : string) : res (list Byte.byte) :=
  Ok (list_byte_of_string v).

(** [a] before or equal to [b] in code-point order. *)
Definition str_le (a b : string) : Prop := String.compare a b <> Gt.

(** A [metadata.json] that [list_commits] reads without an exception:
    absent, or a metadata document. *)
Definition meta_readable (o : option node) : Prop :=
  match o with
  | Some (File (Data _)) | Some (Dir _) => False
  | _ => True
  end.

(** ** Lemmas on listings *)

Lemma entry_put_same n x es : entry n (put_entry n x es) = Some x.
Proof.
  induction es as [|[m y] es IH]; simpl; rewrite ?String.eqb_refl; auto.
  destruct (n =? m)%string eqn:E; simpl; rewrite ?String.eqb_refl; auto.
  rewrite E; exact IH.
Qed.

Lemma entry_put_other n m x es : n <> m -> entry m (put_entry n x es) = entry m es.
Proof.
  intros Hnm; induction es as [|[k y] es IH]; simpl.
  - apply String.eqb_neq in Hnm; rewrite String.eqb_sym, Hnm; reflexivity.
  - destruct (n =? k)%string eqn:E; simpl.
    + apply String.eqb_eq in E; subst k.
      apply String.eqb_neq in Hnm; rewrite String.eqb_sym, Hnm; reflexivity.
    + destruct (m =? k)%string; auto.
Qed.

Lemma entry_drop_other n m es : n <> m -> entry m (drop_entry n es) = entry m es.
Proof.
  intros Hnm; induction es as [|[k y] es IH]; simpl; auto.
  destruct (n =? k)%string eqn:E; simpl.
  - apply String.eqb_eq in E; subst k.
    apply String.eqb_neq in Hnm; rewrite String.eqb_sym, Hnm; reflexivity.
  - destruct (m =? k)%string; auto.
Qed.

Lemma has_entry_spec n es : has_entry n es = true <-> exists x, entry n es = Some x.
Proof.
  unfold has_entry; destruct (entry n es); split; intros H; eauto; try discriminate.
  destruct H; discriminate.
Qed.

Lemma entry_none_has n es : entry n es = None <-> has_entry n es = false.
Proof. unfold has_entry; destruct (entry n es); split; congruence. Qed.

Lemma put_entry_fresh n x es : has_entry n es = false -> put_entry n x es = es ++ [(n, x)].
Proof.
  unfold has_entry; induction es as [|[k y] es IH]; simpl; auto.
  destruct (n =? k)%string; [discriminate|].
  intros H; rewrite IH; auto.
Qed.

Lemma has_entry_app n es1 es2 :
  has_entry n (es1 ++ es2) = has_entry n es1 || has_entry n es2.
Proof.
  unfold has_entry; induction es1 as [|[k y] es IH]; simpl; auto.
  destruct (n =? k)%string; auto.
Qed.

Lemma has_entry_in n es : has_entry n es = true <-> In n (map fst es).
Proof.
  unfold has_entry; induction es as [|[k y] es IH]; simpl.
  - split; [discriminate|tauto].
  - destruct (n =? k)%string eqn:E.
    + apply String.eqb_eq in E; subst; split; auto.
    + apply String.eqb_neq in E; rewrite IH; split; [auto|].
      intros [H|H]; [congruence|auto].
Qed.

(** With distinct names, the loop of [push] copies the listing as it is. *)
Lemma copy_items_fresh items acc :
  NoDup (map fst items) ->
  (forall n, In n (map fst items) -> has_entry n acc = false) ->
  copy_items items acc = (acc ++ items, None).
Proof.
  revert acc; induction items as [|[n x] items IH]; intros acc Hnd Hfr; simpl.
  - rewrite app_nil_r; reflexivity.
  - inversion Hnd as [|? ? Hn Hnd']; subst.
    assert (Hacc : has_entry n acc = false) by (apply Hfr; simpl; auto).
    assert (Hfr' : forall m, In m (map fst items) -> has_entry m (acc ++ [(n, x)]) = false).
    { intros m Hm; rewrite has_entry_app, Hfr by (simpl; auto); simpl.
      unfold has_entry; simpl.
      destruct (m =? n)%string eqn:E; auto.
      apply String.eqb_eq in E; subst; contradiction. }
    destruct x as [c|es]; [|rewrite Hacc];
      rewrite put_entry_fresh by exact Hacc; rewrite IH by auto;
      rewrite <- app_assoc; reflexivity.
Qed.

Ltac mon := cbn [step exec bind get ret modify print throw prints fst snd
  set_commits set_vstore set_repo set_history set_work log_write
  commits vstore repo history written work cfg push remove_commit
  clear_commits commit version_create version_delete add remove save_repo_data
  load_repo_data files directories versions repo_name with_versions_of
  with_files_of with_dirs_of] in *.

Lemma push_given_commits s cid :
  cid <> "" -> has_entry cid (commits s) = true ->
  commits (step s (Push (Some cid))) =
  (let c1 := put_entry "latest" (Dir [])
               (if has_entry "latest" (commits s) then drop_entry "latest" (commits s)
                else commits s) in
   match entry cid c1 with
   | Some (Dir items) => put_entry "latest" (Dir (fst (copy_items items []))) c1
   | _ => c1
   end).
Proof.
  intros Hne Hin. unfold step, exec, push, bind at 1, get; mon.
  destruct (commits s) as [|e es] eqn:Ec; [discriminate|].
  rewrite <- Ec in *.
  apply String.eqb_neq in Hne; rewrite Hne.
  destruct (has_entry cid (commits s)); [|discriminate].
  unfold push_to_latest, bind, modify, get; mon.
  destruct (entry cid _) as [[c|items]|]; mon; try reflexivity.
  destruct (copy_items items []) as [l [e0|]]; mon; reflexivity.
Qed.

Lemma push_to_latest_frame cid s m :
  m <> "latest" ->
  entry m (commits (fst (fst (push_to_latest cid s)))) = entry m (commits s).
Proof.
  intros Hm. unfold push_to_latest, bind, modify, get; mon.
  assert (Hpre : entry m (put_entry "latest" (Dir [])
                   (if has_entry "latest" (commits s) then drop_entry "latest" (commits s)
                    else commits s)) = entry m (commits s)).
  { rewrite entry_put_other by congruence.
    destruct (has_entry "latest" (commits s)); auto.
    apply entry_drop_other; congruence. }
  destruct (entry cid _) as [[c|items]|]; mon; auto.
  destruct (copy_items items []) as [l [e0|]]; mon;
    rewrite entry_put_other by congruence; exact Hpre.
Qed.

Lemma push_frame oid s m :
  m <> "latest" -> entry m (commits (step s (Push oid))) = entry m (commits s).
Proof.
  intros Hm. unfold step, exec, push, bind at 1, get; mon.
  destruct (commits s) as [|e es] eqn:Ec; mon; [rewrite Ec; reflexivity|].
  rewrite <- Ec in *.
  destruct oid as [cid|]; [destruct (cid =? "")|]; mon;
    repeat match goal with
    | |- context [if ?b then _ else _] => destruct b
    | |- context [match ?o with Some _ => _ | None => _ end] =>
        match o with newest_commit _ => destruct o end
    end; mon; try reflexivity.
  all: match goal with
    | |- context [push_to_latest ?c ?st] =>
        pose proof (push_to_latest_frame c st m Hm) as Hp;
        destruct (push_to_latest c st) as [[s' o'] r']; exact Hp
    end.
Qed.

(** C3: once [push] has copied commit [idA] to ["latest"], pushing commit
    [idB] (an existing commit with distinct entry names) leaves ["latest"]
    holding exactly the listing of [idB], nothing of [idA], and [idB]
    itself unchanged. *)
Theorem push_replaces_wholesale s idA idB items :
  idB <> "" -> idB <> "latest" ->
  entry idB (commits s) = Some (Dir items) -> NoDup (map fst items) ->
  let s2 := step (step s (Push (Some idA))) (Push (Some idB)) in
  entry "latest" (commits s2) = Some (Dir items) /\
  entry idB (commits s2) = Some (Dir items).
Proof.
  intros HB HBl HeB Hnd s2; unfold s2.
  set (s1 := step s (Push (Some idA))).
  assert (H1 : entry idB (commits s1) = Some (Dir items))
    by (unfold s1; rewrite push_frame by exact HBl; exact HeB).
  assert (Hin1 : has_entry idB (commits s1) = true)
    by (apply has_entry_spec; eauto).
  rewrite (push_given_commits s1 idB HB Hin1); cbv zeta.
  set (c1 := put_entry "latest" (Dir []) _).
  assert (Hc1 : entry idB c1 = Some (Dir items)).
  { unfold c1; rewrite entry_put_other by congruence.
    destruct (has_entry "latest" (commits s1)); auto.
    rewrite entry_drop_other by congruence; exact H1. }
  rewrite Hc1.
  rewrite copy_items_fresh by (auto; intros; reflexivity); simpl.
  split; [apply entry_put_same|].
  rewrite entry_put_other by congruence; exact Hc1.
Qed.

(** ** Frame lemmas: what each command leaves alone *)

Ltac split_all :=
  repeat (mon; match goal with
               | |- context [match ?x with _ => _ end] =>
                   lazymatch type of x with
                   | (state * _ * _)%type => fail
                   | _ => destruct x eqn:?
                   end
               end).





Lemma commit_frame s i now msg a :
  vstore (step s (Commit i now msg a)) = vstore s /\
  (exists h, history (step s (Commit i now msg a)) = history s ++ h) /\
  (forall c, has_entry c (commits s) = true ->
     entry c (commits (step s (Commit i now msg a))) = entry c (commits s)).
Proof.
  unfold step, exec, commit, bind, get, modify, print, prints, ret, throw.
  split_all; mon; repeat split; eauto using app_nil_r.
  all: intros c Hc;
    assert (Hic : i <> c) by (intros ->; congruence);
    rewrite ?entry_put_other by exact Hic; reflexivity.
Qed.







(** ** The journal *)



(** ** Early failures *)




(** C4: a commit whose clock identifier already names a commit stops at
    [makedirs] with [FileExistsError] before changing anything, and no
    commit overwrites the storage of an existing one. *)
Theorem commit_id_collision s i now msg a :
  (has_entry i (commits s) = true ->
   exec (Commit i now msg a) s = (s, [], Raise "FileExistsError")) /\
  (forall c, has_entry c (commits s) = true ->
   entry c (commits (step s (Commit i now msg a))) = entry c (commits s)).
Proof.
  split.
  - intros H; unfold exec, commit, bind, get, throw; mon.
    rewrite H; reflexivity.
  - apply commit_frame.
Qed.

(** ** Capture lists are never read by materialization *)

Lemma copy_dirs_keys warn w ds1 ds2 acc :
  map fst ds1 = map fst ds2 -> copy_dirs warn w ds1 acc = copy_dirs warn w ds2 acc.
Proof.
  revert ds2 acc; induction ds1 as [|[d l] ds1 IH]; intros [|[d' l'] ds2] acc H;
    simpl in H; try discriminate; auto.
  injection H as <- H; simpl.
  destruct (resolve w d) as [[c|es]|]; auto.
  - destruct (_ || _); auto.
  - rewrite (IH ds2 acc H); reflexivity.
Qed.

Lemma materialize_keys warn w r1 r2 :
  files r1 = files r2 -> map fst (directories r1) = map fst (directories r2) ->
  materialize warn w r1 = materialize warn w r2.
Proof.
  intros Hf Hd; unfold materialize; rewrite Hf.
  destruct (copy_files warn w (files r2) []) as [[a o] [e|]]; auto.
  rewrite (copy_dirs_keys warn w _ _ a Hd); reflexivity.
Qed.

Ltac same_materialize :=
  match goal with
  | |- context [materialize ?wa ?w ?x] =>
      match goal with
      | |- context [materialize wa w ?y] =>
          assert_fails (constr_eq x y);
          rewrite (materialize_keys wa w x y) by (simpl; congruence)
      end
  end.

Ltac split_mat :=
  repeat (mon; first [same_materialize | match goal with
               | |- context [match ?x with _ => _ end] =>
                   lazymatch type of x with
                   | (state * _ * _)%type => fail
                   | _ => destruct x eqn:?
                   end
               end]).

(** C10: two states that differ only in the capture lists of the tracked
    directories produce the same commit storage and the same version
    storage. *)
Theorem snapshots_ignore_captures s1 s2 :
  same_but_captures s1 s2 ->
  (forall i now msg a,
     commits (step s1 (Commit i now msg a)) = commits (step s2 (Commit i now msg a))) /\
  (forall n f now a d,
     vstore (step s1 (VersionCreate n f now a d)) =
     vstore (step s2 (VersionCreate n f now a d))).
Proof.
  destruct s1 as [[nm1 fs1 ds1 vs1] c1 w1 cm1 v1 h1 wr1],
           s2 as [[nm2 fs2 ds2 vs2] c2 w2 cm2 v2 h2 wr2].
  unfold same_but_captures; cbn.
  intros (-> & -> & -> & -> & -> & -> & -> & -> & -> & Hd).
  split; intros.
  - unfold step, exec, commit, bind, get, modify, print, prints, ret, throw; mon.
    split_mat; mon; reflexivity.
  - unfold step, exec, version_create, save_repo_data, bind, get, modify, print,
      prints, ret, throw; mon.
    split_mat; mon; reflexivity.
Qed.

(** ** Status *)

Lemma path_eqb_true p q : path_eqb p q = true -> p = q.
Proof.
  revert q; induction p as [|a p IH]; intros [|b q]; simpl; try discriminate; auto.
  intros H; apply andb_true_iff in H as [H1 H2].
  apply String.eqb_eq in H1; subst; f_equal; auto.
Qed.








(** C2: the status sets do not always partition the tracked files: a file
    tracked as [./a.txt], unchanged since the pushed commit, is in none of
    Modified, Deleted and Staged (and [a.txt] is listed as Untracked). *)
Theorem status_misses_dot_path dcm dvm :
  files (repo dot_demo) = [["."; "a.txt"]] /\
  (let '(_, _, r) := status dcm dvm dot_demo in r) =
    Ok {| untracked := [["a.txt"]; ["sub"; "b.txt"]]; modified := []; deleted := [];
          staged := [] |}.
Proof. split; vm_compute; reflexivity. Qed.


(** ** Journal *)


(** ** Comparing versions *)







(** ** Instances of the properties *)


Lemma push_replaces_wholesale_witness :
  let s2 := step (step two_commits (Push (Some "1"))) (Push (Some "2")) in
  entry "latest" (commits s2) = Some (Dir (commit_items two_commits "2")) /\
  entry "2" (commits s2) = Some (Dir (commit_items two_commits "2")).
Proof.
  apply (push_replaces_wholesale two_commits "1" "2" (commit_items two_commits "2")).
  - discriminate.
  - discriminate.
  - vm_compute; reflexivity.
  - vm_compute; repeat constructor; simpl; intuition discriminate.
Defined.

Lemma commit_id_collision_witness :
  exec (Commit cid0 "t2" "" "") dot_demo = (dot_demo, [], Raise "FileExistsError").
Proof.
  apply (proj1 (commit_id_collision dot_demo cid0 "t2" "" "")).
  vm_compute; reflexivity.
Defined.





Lemma snapshots_ignore_captures_witness :
  commits (step (capture_demo []) (Commit cid0 "t1" "" "")) =
  commits (step (capture_demo [["sub"; "b.txt"]]) (Commit cid0 "t1" "" "")).
Proof.
  refine (proj1 (snapshots_ignore_captures (capture_demo []) (capture_demo [["sub"; "b.txt"]]) _)
            cid0 "t1" "" "").
  vm_compute; repeat split.
Defined.

(** ** Inputs on which the stated properties fail *)

(** Two commits within the same second: the second stops at [makedirs]
    and there is one commit. *)
Lemma same_second_commit_fails :
  let s1 := step tracked_a (Commit cid0 "t1" "" "") in
  exec (Commit cid0 "t1" "" "") s1 = (s1, [], Raise "FileExistsError") /\
  List.length (commits s1) = 1.
Proof. split; vm_compute; reflexivity. Qed.





(** ** Index operations *)

Lemma path_eqb_refl p : path_eqb p p = true.
Proof. induction p as [|a p IH]; simpl; auto; rewrite String.eqb_refl; exact IH. Qed.

Lemma path_mem_In p l : path_mem p l = true <-> In p l.
Proof.
  unfold path_mem; rewrite existsb_exists; split.
  - intros (q & Hq & E); apply path_eqb_true in E; subst; exact Hq.
  - intros H; exists p; split; [exact H|apply path_eqb_refl].
Qed.



Lemma with_files_of_same r : with_files_of r (files r) = r.
Proof. destruct r; reflexivity. Qed.

Lemma with_dirs_of_same r : with_dirs_of r (directories r) = r.
Proof. destruct r; reflexivity. Qed.

Lemma dir_get_set p l ds : dir_get p (dir_set p l ds) = Some l.
Proof.
  induction ds as [|[q l'] ds IH]; simpl.
  - rewrite path_eqb_refl; reflexivity.
  - destruct (path_eqb p q) eqn:E; simpl; rewrite E; auto.
Qed.

Lemma dir_set_set p a b ds : dir_set p a (dir_set p b ds) = dir_set p a ds.
Proof.
  induction ds as [|[q l'] ds IH]; simpl.
  - rewrite path_eqb_refl; reflexivity.
  - destruct (path_eqb p q) eqn:E; simpl; rewrite E; [reflexivity|rewrite IH; reflexivity].
Qed.

Lemma dir_set_get p l ds : dir_get p ds = Some l -> dir_set p l ds = ds.
Proof.
  induction ds as [|[q l'] ds IH]; simpl; [discriminate|].
  destruct (path_eqb p q); [intros H; injection H as ->; reflexivity|].
  intros H; rewrite IH; auto.
Qed.


Lemma capture_In l found x : In x (capture l found) <-> In x l \/ In x found.
Proof.
  unfold capture; revert l; induction found as [|y found IH]; intros l; simpl.
  - tauto.
  - destruct (path_mem y l) eqn:E.
    + rewrite IH; apply path_mem_In in E; split; [tauto|].
      intros [H|[<-|H]]; auto.
    + rewrite IH, in_app_iff; simpl; tauto.
Qed.


Lemma capture_noop l found : (forall x, In x found -> In x l) -> capture l found = l.
Proof.
  unfold capture; revert l; induction found as [|y found IH]; intros l H; simpl; [reflexivity|].
  assert (Hy : path_mem y l = true) by (apply path_mem_In, H; simpl; auto).
  rewrite Hy; apply IH; intros; apply H; simpl; auto.
Qed.

Lemma capture_idem l found : capture (capture l found) found = capture l found.
Proof. apply capture_noop; intros x Hx; apply capture_In; auto. Qed.

Ltac add_unfold := unfold step, exec, add, remove, save_repo_data, bind, get, modify, print, ret; mon.


(** adding the same path twice leaves the index as adding it once. *)
Theorem add_idempotent s p wf :
  repo (step (step s (Add p wf)) (Add p wf)) = repo (step s (Add p wf)).
Proof.
  add_unfold.
  destruct (resolve (work s) p) as [[c|es]|] eqn:Hr; mon.
  - destruct (path_mem p (files (repo s))) eqn:Hm; mon; rewrite Hr; mon.
    + rewrite Hm; mon; reflexivity.
    + assert (Hm' : path_mem p (files (repo s) ++ [p]) = true)
        by (apply path_mem_In, in_app_iff; simpl; auto).
      rewrite Hm'; mon; reflexivity.
  - destruct (dir_get p (directories (repo s))) as [l|] eqn:Hg; destruct wf; mon;
      rewrite Hr; mon.
    all: repeat (first [rewrite dir_get_set | rewrite Hg | rewrite capture_idem
                        | rewrite dir_set_set]; mon); try reflexivity.
  - rewrite Hr; mon; reflexivity.
Qed.


(** ** Versions *)






Lemma entry_last n y es : has_entry n es = false -> entry n (es ++ [(n, y)]) = Some y.
Proof.
  unfold has_entry; induction es as [|[k z] es IH]; simpl.
  - rewrite String.eqb_refl; reflexivity.
  - destruct (n =? k)%string; [discriminate|]; exact IH.
Qed.


Lemma remove_name_none n vs : remove_name n vs = None <-> ~ In n vs.
Proof.
  induction vs as [|m vs IH]; simpl; [tauto|].
  destruct (n =? m)%string eqn:E.
  - apply String.eqb_eq in E; subst; split; [discriminate|tauto].
  - apply String.eqb_neq in E; destruct (remove_name n vs) as [l|]; split.
    + discriminate.
    + intros H; exfalso; apply H; right.
      destruct (in_dec string_dec n vs) as [Hi|Hi]; [exact Hi|apply IH in Hi; discriminate].
    + intros _ [H|H]; [congruence|apply (proj1 IH eq_refl), H].
    + intros _; reflexivity.
Qed.

Ltac vunfold := unfold step, exec, version_create, version_delete, save_repo_data,
  bind, get, modify, print, prints, ret, throw; mon.




Ltac cunfold := unfold step, exec, commit, bind, get, modify, print, prints, ret, throw; mon.



(** Pushing ["latest"] itself first deletes ["latest"] and then copies
    the fresh, empty ["latest"] onto itself: ["latest"] ends up empty,
    every other entry is kept, and the command reports success. *)
Theorem push_latest_empties s :
  has_entry "latest" (commits s) = true ->
  let r := exec (Push (Some "latest")) s in
  entry "latest" (commits (fst (fst r))) = Some (Dir []) /\
  (forall m, m <> "latest" -> entry m (commits (fst (fst r))) = entry m (commits s)) /\
  snd (fst r) = ["Commit 'latest' pushed to 'latest'."] /\ snd r = Ok tt.
Proof.
  intros Hl r; subst r; split; [|split].
  - unfold exec, push, bind at 1, get; mon.
    destruct (commits s) as [|e es] eqn:Ec; [discriminate|].
    rewrite <- Ec in *; cbn [String.eqb]; rewrite Hl.
    unfold push_to_latest, bind, modify, get; mon.
    rewrite entry_put_same; mon.
    apply entry_put_same.
  - intros m Hm; exact (push_frame (Some "latest") s m Hm).
  - unfold exec, push, bind at 1, get; mon.
    destruct (commits s) as [|e es] eqn:Ec; [discriminate|].
    rewrite <- Ec in *; cbn [String.eqb]; rewrite Hl.
    unfold push_to_latest, bind, modify, get; mon.
    rewrite entry_put_same; mon.
    split; reflexivity.
Qed.

Lemma filter_latest_none (cs : entries) :
  ~ In "latest" (map fst cs) -> filter (fun e => fst e =? "latest") cs = [].
Proof.
  induction cs as [|[k x] cs IH]; cbn [filter map fst In]; intros H; [reflexivity|].
  destruct (String.eqb_spec k "latest"); [subst; tauto|].
  apply IH; tauto.
Qed.

Lemma filter_latest_NoDup (cs : entries) :
  NoDup (map fst cs) ->
  filter (fun e => fst e =? "latest") cs = [] \/
  exists x, filter (fun e => fst e =? "latest") cs = [("latest", x)].
Proof.
  induction cs as [|[k x] cs IH]; cbn [filter map fst]; intros H; [left; reflexivity|].
  inversion H as [|? ? Hk Hd]; subst.
  destruct (String.eqb_spec k "latest").
  - subst; right; exists x; rewrite filter_latest_none by exact Hk; reflexivity.
  - exact (IH Hd).
Qed.

(** After [clear_commits], [push] without an identifier finds no commit
    to push: it prints ["No commits to push."] and changes nothing. *)
Theorem clear_then_push_noop s :
  NoDup (map fst (commits s)) ->
  let s1 := step s ClearCommits in
  exec (Push None) s1 = (s1, ["No commits to push."], Ok tt).
Proof.
  intros Hd s1; subst s1; unfold step, exec, clear_commits, push, bind, modify, get, print; mon.
  destruct (filter_latest_NoDup (commits s) Hd) as [He|[x He]]; rewrite !He; mon; reflexivity.
Qed.

(** ** The commit [push()] picks *)

Lemma str_compare_refl a : String.compare a a = Eq.
Proof.
  induction a as [|x a IH]; cbn [String.compare]; [reflexivity|].
  unfold Ascii.compare; rewrite N.compare_refl; exact IH.
Qed.

Lemma str_le_total a b : String.compare a b = Gt -> str_le b a.
Proof. unfold str_le; intros H; rewrite String.compare_antisym, H; discriminate. Qed.

Lemma str_le_trans a b c : str_le a b -> str_le b c -> str_le a c.
Proof.
  unfold str_le; revert b c; induction a as [|x a IH]; intros [|y b] [|z c];
    cbn [String.compare]; try congruence.
  unfold Ascii.compare.
  destruct (N.compare_spec (N_of_ascii x) (N_of_ascii y)) as [Hxy|Hxy|Hxy];
  destruct (N.compare_spec (N_of_ascii y) (N_of_ascii z)) as [Hyz|Hyz|Hyz];
  intros H1 H2; try congruence.
  - rewrite Hxy, Hyz, N.compare_refl; exact (IH b c H1 H2).
  - rewrite Hxy; replace (N_of_ascii y ?= N_of_ascii z)%N with Lt
      by (symmetry; apply N.compare_lt_iff; exact Hyz); discriminate.
  - rewrite <- Hyz; replace (N_of_ascii x ?= N_of_ascii y)%N with Lt
      by (symmetry; apply N.compare_lt_iff; exact Hxy); discriminate.
  - replace (N_of_ascii x ?= N_of_ascii z)%N with Lt
      by (symmetry; apply N.compare_lt_iff; lia); discriminate.
Qed.

Lemma insert_sorted_perm x l : Permutation (insert_sorted x l) (x :: l).
Proof.
  induction l as [|y l IH]; cbn [insert_sorted]; [reflexivity|].
  destruct (String.compare x y); try reflexivity.
  rewrite IH; apply perm_swap.
Qed.

Lemma sort_strings_perm l : Permutation (sort_strings l) l.
Proof.
  unfold sort_strings; induction l as [|x l IH]; cbn [fold_right]; [reflexivity|].
  rewrite insert_sorted_perm, IH; reflexivity.
Qed.

Lemma insert_sorted_sorted x l :
  StronglySorted str_le l -> StronglySorted str_le (insert_sorted x l).
Proof.
  induction l as [|y l IH]; cbn [insert_sorted]; intros H.
  - repeat constructor.
  - inversion H as [|? ? Hl Hf]; subst.
    destruct (String.compare x y) eqn:E.
    + constructor; [exact H|].
      constructor; [unfold str_le; rewrite E; discriminate|].
      eapply Forall_impl; [|exact Hf].
      intros z; apply str_le_trans; unfold str_le; rewrite E; discriminate.
    + constructor; [exact H|].
      constructor; [unfold str_le; rewrite E; discriminate|].
      eapply Forall_impl; [|exact Hf].
      intros z; apply str_le_trans; unfold str_le; rewrite E; discriminate.
    + constructor; [exact (IH Hl)|].
      eapply Permutation_Forall; [symmetry; apply insert_sorted_perm|].
      constructor; [apply str_le_total, E|exact Hf].
Qed.

Lemma sort_strings_sorted l : StronglySorted str_le (sort_strings l).
Proof.
  unfold sort_strings; induction l as [|x l IH]; cbn [fold_right].
  - constructor.
  - apply insert_sorted_sorted, IH.
Qed.

Lemma remove_name_sorted n l l' :
  remove_name n l = Some l' -> StronglySorted str_le l ->
  StronglySorted str_le l' /\ (forall x, In x l' -> In x l).
Proof.
  revert l'; induction l as [|m l IH]; intros l'; cbn [remove_name]; [discriminate|].
  intros E H; inversion H as [|? ? Hl Hf]; subst.
  destruct (n =? m).
  - injection E as <-; split; [exact Hl|intros x Hx; right; exact Hx].
  - destruct (remove_name n l) as [l''|]; [|discriminate].
    injection E as <-.
    destruct (IH l'' eq_refl Hl) as [Hs Hsub].
    split.
    + constructor; [exact Hs|].
      apply Forall_forall; intros x Hx; exact (proj1 (Forall_forall _ _) Hf x (Hsub x Hx)).
    + intros x [<-|Hx]; [left; reflexivity|right; exact (Hsub x Hx)].
Qed.

Lemma remove_name_keeps n l l' x :
  remove_name n l = Some l' -> In x l -> x <> n -> In x l'.
Proof.
  revert l'; induction l as [|m l IH]; intros l'; cbn [remove_name]; [discriminate|].
  intros E [->|Hx] Hn.
  - destruct (String.eqb_spec n x); [congruence|].
    destruct (remove_name n l); [|discriminate].
    injection E as <-; left; reflexivity.
  - destruct (n =? m).
    + injection E as <-; exact Hx.
    + destruct (remove_name n l) as [l''|]; [|discriminate].
      injection E as <-; right; exact (IH l'' eq_refl Hx Hn).
Qed.

Lemma remove_name_gone n l l' :
  remove_name n l = Some l' -> NoDup l -> ~ In n l'.
Proof.
  revert l'; induction l as [|m l IH]; intros l'; cbn [remove_name]; [discriminate|].
  intros E Hd; inversion Hd as [|? ? Hm Hd']; subst.
  destruct (String.eqb_spec n m) as [->|Hne].
  - injection E as <-; exact Hm.
  - destruct (remove_name n l) as [l''|]; [|discriminate].
    injection E as <-; intros [Heq|Hin]; [congruence|exact (IH l'' eq_refl Hd' Hin)].
Qed.

Lemma sorted_last_max (l : list string) :
  StronglySorted str_le l -> l <> [] ->
  In (last l "") l /\ forall x, In x l -> str_le x (last l "").
Proof.
  induction l as [|a l IH]; intros H Hne; [congruence|].
  inversion H as [|? ? Hl Hf]; subst.
  destruct l as [|b l'].
  - cbn; split; [left; reflexivity|].
    intros x [<-|[]]; unfold str_le; rewrite str_compare_refl; discriminate.
  - destruct (IH Hl ltac:(discriminate)) as [Hin Hmax].
    replace (last (a :: b :: l') "") with (last (b :: l') "") by reflexivity.
    split; [right; exact Hin|].
    intros x [<-|Hx]; [|exact (Hmax x Hx)].
    exact (proj1 (Forall_forall _ _) Hf _ Hin).
Qed.

(** With distinct names, the commit [newest_commit] picks is one of the
    names, not ["latest"], and no other name but ["latest"] is greater in
    code-point order. *)
Theorem newest_commit_greatest names c :
  NoDup names -> newest_commit names = Some c ->
  In c names /\ c <> "latest" /\
  forall x, In x names -> x <> "latest" -> String.compare x c <> Gt.
Proof.
  intros Hd; unfold newest_commit.
  pose proof (sort_strings_perm names) as Hp.
  pose proof (sort_strings_sorted names) as Hs.
  assert (Hd' : NoDup (sort_strings names)) by (eapply Permutation_NoDup; [symmetry; exact Hp|exact Hd]).
  destruct (remove_name "latest" (sort_strings names)) as [l'|] eqn:Er.
  - destruct (remove_name_sorted _ _ _ Er Hs) as [Hs' Hsub].
    destruct l' as [|a l'']; [discriminate|]; intros Hc.
    assert (c = last (a :: l'') "") as -> by (injection Hc as Hc; rewrite <- Hc; reflexivity).
    destruct (sorted_last_max (a :: l'') Hs' ltac:(discriminate)) as [Hin Hmax].
    split; [|split].
    + apply (Permutation_in _ Hp), Hsub, Hin.
    + intros Heq; rewrite Heq in Hin; exact (remove_name_gone _ _ _ Er Hd' Hin).
    + intros x Hx Hl; apply Hmax.
      apply (remove_name_keeps "latest" (sort_strings names)); [exact Er| |exact Hl].
      apply (Permutation_in _ (Permutation_sym Hp)), Hx.
  - apply remove_name_none in Er.
    destruct (sort_strings names) as [|a l''] eqn:E; [discriminate|]; intros Hc.
    assert (c = last (a :: l'') "") as -> by (injection Hc as Hc; rewrite <- Hc; reflexivity).
    destruct (sorted_last_max (a :: l'') Hs ltac:(discriminate)) as [Hin Hmax].
    split; [|split].
    + apply (Permutation_in _ Hp), Hin.
    + intros Heq; rewrite Heq in Hin; exact (Er Hin).
    + intros x Hx _; apply Hmax, (Permutation_in _ (Permutation_sym Hp)), Hx.
Qed.

(** [newest_commit] finds nothing only when every name is ["latest"]. *)
Theorem newest_commit_none names :
  newest_commit names = None -> forall x, In x names -> x = "latest".
Proof.
  unfold newest_commit; intros Hn x Hx.
  apply (Permutation_in _ (Permutation_sym (sort_strings_perm names))) in Hx.
  destruct (remove_name "latest" (sort_strings names)) as [[|a l']|] eqn:Er; try discriminate.
  - destruct (String.eqb_spec x "latest") as [|Hne]; [assumption|].
    destruct (remove_name_keeps _ _ _ _ Er Hx Hne).
  - destruct (sort_strings names); [destruct Hx|discriminate].
Qed.

(** ** Status *)






(** ** Comparing versions *)






(** ** [version] over a directory the index does not list *)

(** When the directory of a version exists but the index does not list its
    name, [version create --force] deletes the directory and then crashes
    with [ValueError] on [list.remove]: the version's files are gone and
    the index is left as it was. *)
Theorem forced_create_unlisted s n now a d :
  n <> "" -> has_entry n (vstore s) = true -> ~ In n (versions (repo s)) ->
  exec (VersionCreate n true now a d) s =
    (set_vstore (drop_entry n (vstore s)) s,
     [("Version '" ++ n ++ "' exists but will be overwritten due to --force.")%string],
     Raise "ValueError").
Proof.
  intros Hn Hh Hv; unfold exec; vunfold.
  apply String.eqb_neq in Hn; rewrite Hn, Hh; cbn [andb negb]; mon.
  apply remove_name_none in Hv; rewrite Hv; mon; reflexivity.
Qed.

(** [version delete] in the same situation also deletes the directory and
    crashes with [ValueError], leaving the index as it was. *)
Theorem delete_unlisted s n :
  n <> "" -> has_entry n (vstore s) = true -> ~ In n (versions (repo s)) ->
  exec (VersionDelete n) s = (set_vstore (drop_entry n (vstore s)) s, [], Raise "ValueError").
Proof.
  intros Hn Hh Hv; unfold exec; vunfold.
  apply String.eqb_neq in Hn; rewrite Hn, Hh; mon.
  apply remove_name_none in Hv; rewrite Hv; mon; reflexivity.
Qed.

(** ** Right after [init] *)

(** Right after [init], [push] finds nothing to push (["latest"] is the
    only entry), [list_commits] lists ["latest"] without metadata, there
    are no versions and no history, and [get_last_commit_info] says so;
    none of these changes the state. *)
Theorem after_init_reads name w a d m :
  let s := fst (init name w a d m) in
  exec (Push None) s = (s, ["No commits to push."], Ok tt) /\
  list_commits s = (s, ["Commits:"; "- latest: No metadata available."], Ok tt) /\
  list_versions s = (s, ["No versions found."], Ok tt) /\
  list_commit_history s = (s, ["No commits found in the history."], Ok tt) /\
  get_last_commit_info s = (s, [], Ok "No commits yet.").
Proof. repeat split. Qed.

(** The commit message default [init] stores is the raw answer to its
    third prompt, so a commit right after [init] records the commit's own
    answer or else that raw answer: with both answers empty the recorded
    message is the empty string. *)
Theorem init_commit_message name w a d m i now msg ai :
  i <> "latest" ->
  let s' := step (fst (init name w a d m)) (Commit i now msg ai) in
  history s' = [{| commit_id := i; timestamp := now; message := or_default msg m;
                   author := or_default ai (or_default a "Unknown") |}] /\
  (m = "" -> msg = "" -> map message (history s') = [""]).
Proof.
  intros Hi s'; subst s'; unfold init; cunfold.
  apply String.eqb_neq in Hi.
  replace (has_entry i [("latest", Dir [])]) with false
    by (unfold has_entry; cbn [entry]; rewrite Hi; reflexivity); mon.
  split; [reflexivity|intros -> ->; reflexivity].
Qed.

(** ** Configuration commands *)

(** The configuration commands never change the configuration [commit]
    and [version] read ([.icvcs/icvcs_config.json]), the index, the
    commits, the versions, the journal or the files written to
    [.icvcs]; at most the working tree's [icvcs_config.json] changes. *)
Theorem update_config_frame dcm dvm sk key v s :
  let s' := fst (fst (update_icvcs_config dcm dvm sk key v s)) in
  cfg s' = cfg s /\ repo s' = repo s /\ commits s' = commits s /\
  vstore s' = vstore s /\ history s' = history s /\ written s' = written s.
Proof.
  intros s'; subst s'; unfold update_icvcs_config, bind, get, modify, print, throw; mon.
  destruct (resolve (work s) ["icvcs_config.json"]) as [[c|es]|]; mon;
    [destruct (sk (bytes_of dcm dvm c) key v); mon|..]; repeat split.
Qed.

(** [init] writes its configuration inside [.icvcs], but the
    configuration commands look for [icvcs_config.json] in the working
    directory: over a working tree without that file they only print
    ["Config file does not exist."]. *)
Theorem init_config_missing dcm dvm sk name w a d m key v :
  resolve w ["icvcs_config.json"] = None ->
  let s := fst (init name w a d m) in
  update_icvcs_config dcm dvm sk key v s = (s, ["Config file does not exist."], Ok tt).
Proof.
  intros Hw s; subst s; unfold update_icvcs_config, bind, get, print; cbn [fst init work].
  rewrite Hw; reflexivity.
Qed.

(** ** [list_commits] *)

Lemma list_commit_lines_ok s ids :
  (forall cid, In cid ids -> meta_readable (lookup (commits s) [cid; "metadata.json"])) ->
  exists ls, list_commit_lines ids s = (s, ls, Ok tt) /\ List.length ls = List.length ids.
Proof.
  induction ids as [|cid ids IH]; intros Hall; [exists []; split; reflexivity|].
  destruct IH as (ls & E & Hl); [intros c Hc; apply Hall; right; exact Hc|].
  pose proof (Hall cid (or_introl eq_refl)) as Hc.
  cbn [list_commit_lines]; unfold bind at 1, get.
  destruct (lookup (commits s) [cid; "metadata.json"]) as [[[b|m|m]|es]|]; cbn in Hc;
    try contradiction; unfold bind, print; rewrite E; eexists; split; try reflexivity;
    cbn [app List.length]; rewrite Hl; reflexivity.
Qed.

(** [list_commits] changes nothing; when no [metadata.json] of an entry
    is a data file or a directory, it prints ["Commits:"] and then one line
    for every entry of the commits directory, ["latest"] included. *)
Theorem list_commits_one_line_each s :
  commits s <> [] ->
  (forall cid, In cid (map fst (commits s)) ->
     meta_readable (lookup (commits s) [cid; "metadata.json"])) ->
  exists ls, list_commits s = (s, "Commits:" :: ls, Ok tt) /\
             List.length ls = List.length (commits s).
Proof.
  intros Hne Hall.
  pose proof (sort_strings_perm (map fst (commits s))) as Hp.
  destruct (list_commit_lines_ok s (sort_strings (map fst (commits s)))) as (ls & E & Hl).
  { intros c Hc; apply Hall, (Permutation_in _ Hp), Hc. }
  exists ls; split.
  - unfold list_commits, bind at 1, get.
    destruct (sort_strings (map fst (commits s))) as [|x l] eqn:Es.
    + apply Permutation_nil in Hp; destruct (commits s); [contradiction|discriminate].
    + unfold bind, print; rewrite E; reflexivity.
  - rewrite Hl, (Permutation_length Hp), length_map; reflexivity.
Qed.

(** ** [main] *)

(** [icvcs commit] followed by any word other than [remove], [clear],
    [list] and [history] makes a commit; the extra words are ignored. *)
Theorem main_commit_fallback prog w rest :
  w <> "remove" -> w <> "clear" -> w <> "list" -> w <> "history" ->
  main (prog :: "commit" :: w :: rest) = CCommit.
Proof.
  intros H1 H2 H3 H4; unfold main; cbn [List.length nth Nat.ltb Nat.leb].
  apply String.eqb_neq in H1, H2, H3, H4; rewrite H1, H2, H3, H4; reflexivity.
Qed.

(** [icvcs version] without a subcommand, and [icvcs compare] with fewer
    than two version names, index [sys.argv] out of range: [main] fails
    with [IndexError] instead of printing a usage message. *)
Theorem main_index_error prog rest :
  List.length rest < 2 ->
  main [prog; "version"] = IndexError /\ main (prog :: "compare" :: rest) = IndexError.
Proof.
  intros Hr; split; [reflexivity|].
  destruct rest as [|x [|y rest]]; cbn [List.length] in Hr; try lia; reflexivity.
Qed.

(** ** Snapshots: files with the same basename *)





(** ** Instances of the further properties *)







Lemma push_latest_empties_witness :
  has_entry "latest" (commits dot_demo) = true /\
  let r := exec (Push (Some "latest")) dot_demo in
  entry "latest" (commits (fst (fst r))) = Some (Dir []) /\
  (forall m, m <> "latest" -> entry m (commits (fst (fst r))) = entry m (commits dot_demo)) /\
  snd (fst r) = ["Commit 'latest' pushed to 'latest'."] /\ snd r = Ok tt.
Proof.
  split; [reflexivity|].
  apply push_latest_empties; reflexivity.
Defined.

Lemma clear_then_push_noop_witness :
  NoDup (map fst (commits dot_demo)) /\
  let s1 := step dot_demo ClearCommits in
  exec (Push None) s1 = (s1, ["No commits to push."], Ok tt).
Proof.
  assert (H : NoDup (map fst (commits dot_demo))).
  { vm_compute; repeat constructor; intros H; cbn in H; intuition discriminate. }
  split; [exact H|].
  apply clear_then_push_noop; exact H.
Defined.

Lemma newest_commit_greatest_witness :
  NoDup ["2"; "latest"; "10"] /\ newest_commit ["2"; "latest"; "10"] = Some "2" /\
  In "2" ["2"; "latest"; "10"] /\ "2" <> "latest" /\
  forall x, In x ["2"; "latest"; "10"] -> x <> "latest" -> String.compare x "2" <> Gt.
Proof.
  assert (H : NoDup ["2"; "latest"; "10"]).
  { repeat constructor; intros H; cbn in H; intuition discriminate. }
  split; [exact H|split; [reflexivity|]].
  apply newest_commit_greatest; [exact H|reflexivity].
Defined.

Lemma newest_commit_none_witness :
  newest_commit ["latest"] = None /\ forall x, In x ["latest"] -> x = "latest".
Proof.
  split; [reflexivity|].
  apply newest_commit_none; reflexivity.
Defined.



Lemma forced_create_unlisted_witness :
  "v1" <> "" /\ has_entry "v1" (vstore unlisted_demo) = true /\
  ~ In "v1" (versions (repo unlisted_demo)) /\
  exec (VersionCreate "v1" true "t1" "" "") unlisted_demo =
    (set_vstore (drop_entry "v1" (vstore unlisted_demo)) unlisted_demo,
     [("Version '" ++ "v1" ++ "' exists but will be overwritten due to --force.")%string],
     Raise "ValueError").
Proof.
  split; [discriminate|split; [reflexivity|split; [intros []|]]].
  apply forced_create_unlisted; [discriminate|reflexivity|intros []].
Defined.

Lemma delete_unlisted_witness :
  "v1" <> "" /\ has_entry "v1" (vstore unlisted_demo) = true /\
  ~ In "v1" (versions (repo unlisted_demo)) /\
  exec (VersionDelete "v1") unlisted_demo =
    (set_vstore (drop_entry "v1" (vstore unlisted_demo)) unlisted_demo, [], Raise "ValueError").
Proof.
  split; [discriminate|split; [reflexivity|split; [intros []|]]].
  apply delete_unlisted; [discriminate|reflexivity|intros []].
Defined.

Lemma init_commit_message_witness :
  cid0 <> "latest" /\
  let s' := step (fst (init "demo" tree0 "" "" "")) (Commit cid0 "t1" "" "") in
  history s' = [{| commit_id := cid0; timestamp := "t1"; message := or_default "" "";
                   author := or_default "" (or_default "" "Unknown") |}] /\
  ("" = "" -> "" = "" -> map message (history s') = [""]).
Proof.
  split; [discriminate|].
  apply init_commit_message; discriminate.
Defined.

Lemma init_config_missing_witness :
  resolve tree0 ["icvcs_config.json"] = None /\
  let s := fst (init "demo" tree0 "" "" "") in
  update_icvcs_config no_dump_c no_dump_v set_whole "author" "me" s =
    (s, ["Config file does not exist."], Ok tt).
Proof.
  split; [reflexivity|].
  apply init_config_missing; reflexivity.
Defined.

Lemma list_commits_one_line_each_witness :
  commits two_commits <> [] /\
  (forall cid, In cid (map fst (commits two_commits)) ->
     meta_readable (lookup (commits two_commits) [cid; "metadata.json"])) /\
  exists ls, list_commits two_commits = (two_commits, "Commits:" :: ls, Ok tt) /\
             List.length ls = List.length (commits two_commits).
Proof.
  assert (H1 : commits two_commits <> []) by (vm_compute; discriminate).
  assert (H2 : forall cid, In cid (map fst (commits two_commits)) ->
                 meta_readable (lookup (commits two_commits) [cid; "metadata.json"])).
  { assert (E : map fst (commits two_commits) = ["1"; "2"]) by (vm_compute; reflexivity).
    rewrite E; intros cid [<-|[<-|[]]]; vm_compute; exact I. }
  split; [exact H1|split; [exact H2|]].
  exact (list_commits_one_line_each two_commits H1 H2).
Defined.

Lemma main_commit_fallback_witness :
  "-m" <> "remove" /\ "-m" <> "clear" /\ "-m" <> "list" /\ "-m" <> "history" /\
  main ["icvcs"; "commit"; "-m"; "fix"] = CCommit.
Proof.
  split; [discriminate|split; [discriminate|split; [discriminate|split; [discriminate|]]]].
  apply main_commit_fallback; discriminate.
Defined.

Lemma main_index_error_witness :
  List.length ["v1"] < 2 /\
  main ["icvcs"; "version"] = IndexError /\ main ["icvcs"; "compare"; "v1"] = IndexError.
Proof.
  split; [cbn; lia|].
  apply main_index_error; cbn; lia.
Defined.

